(** * Generalised Fibonacci recurrences and their convergence ratio

    A shallow embedding of the code of [fibonacci-musings.ipynb]: its two
    functions,

<<
    @lru_cache(maxsize=None)
    def fib(n, f0, f1):
        prev, curr = f0, f1
        for _ in range(n):
            prev, curr = curr, prev + curr
        return prev

    def fib_lim(n, f0, f1):
        return fib(n, f0, f1)/fib(n - 1, f0, f1)
>>

    The notebook is duck-typed in its seeds: the code only needs [+] and
    [/] on them.  The embedding is therefore written once over an
    interface of numbers, [Number], and read at three instances: the
    canonical fractions [Qc] and the reals [R], both exact fields, and
    IEEE 754 binary64, which is what Python's [float] is.  The index [n]
    is a Python [int], hence a [Z].

    Laws stated for all seeds are proved over every exact field; the
    ratios at given seeds are evaluated both exactly and in binary64.
    The notebook's third cell, whose printed table is the one recorded
    run of [fib_lim] on chosen seeds, is embedded as well and checked
    against that table; so is the second cell, over a random source
    given from outside.  The last sections follow the notebook's own
    argument: the decorator, the step of the ratio, the two axes, and
    the convergence to the golden ratio over the reals. *)

From Stdlib Require Import ZArith QArith Qabs Qcanon List Lia Bool.
From Stdlib Require Import Field Rdefinitions RIneq RealField.
From Stdlib Require Import Floats.
From Stdlib Require Import R_sqrt Rfunctions Rbasic_fun Lra.
Import ListNotations.

Set Implicit Arguments.

(** ** Outcomes of a Python call *)

(** The exceptions the two functions are said to raise.  The notebook
    itself only ever raises [ZeroDivisionError] (from [/]);
    [InvalidArgument] is the condition the specification names for a
    rejected index, kept here so that statements about it can be written
    down. *)
Inductive exn : Set :=
| ZeroDivisionError
| InvalidArgument.

Inductive result (A : Type) : Type :=
| Ok (v : A)
| Raise (e : exn).

Arguments Ok {A} v.
Arguments Raise {A} e.

Definition bind {A B : Type} (r : result A) (k : A -> result B) : result B :=
  match r with
  | Ok v => k v
  | Raise e => Raise e
  end.

Notation "x <- r ;; k" := (bind r (fun x => k))
  (at level 61, r at next level, right associativity).

(** ** The numbers the notebook computes with *)

(** [add] is [+]; [div] is [/] on a divisor that is not zero and
    [is_zero] the test that makes [/] raise instead. *)
Class Number (T : Type) : Type := {
  add : T -> T -> T;
  div : T -> T -> T;
  is_zero : T -> bool
}.

(** Python's [a / b]. *)
Definition truediv {T : Type} `{Number T} (a b : T) : result T :=
  if is_zero b then Raise ZeroDivisionError else Ok (div a b).

(** Exact arithmetic: a field with a decidable equality.  [/] raises on
    the zero of the field and on nothing else. *)
Class ExactField (F : Type) : Type := {
  fzero : F;
  fone : F;
  fadd : F -> F -> F;
  fmul : F -> F -> F;
  fsub : F -> F -> F;
  fopp : F -> F;
  fdiv : F -> F -> F;
  finv : F -> F;
  exact_field : field_theory fzero fone fadd fmul fsub fopp fdiv finv eq;
  exact_eq_dec : forall a b : F, {a = b} + {a <> b}
}.

Declare Scope exact_scope.
Delimit Scope exact_scope with ex.
Infix "+" := fadd : exact_scope.
Infix "*" := fmul : exact_scope.
Infix "/" := fdiv : exact_scope.
Notation "0" := fzero : exact_scope.
Notation "1" := fone : exact_scope.

#[export] Instance exact_Number {F : Type} `{ExactField F} : Number F := {
  add := fadd;
  div := fdiv;
  is_zero := fun b => if exact_eq_dec b fzero then true else false
}.

(** Canonical fractions. *)
#[export] Instance Qc_ExactField : ExactField Qc := {
  fzero := Q2Qc 0;
  fone := Q2Qc 1;
  fadd := Qcplus;
  fmul := Qcmult;
  fsub := Qcminus;
  fopp := Qcopp;
  fdiv := Qcdiv;
  finv := Qcinv;
  exact_field := Qcft;
  exact_eq_dec := Qc_eq_dec
}.

(** Real numbers. *)
#[export] Instance R_ExactField : ExactField R := {
  fzero := 0%R;
  fone := 1%R;
  fadd := Rplus;
  fmul := Rmult;
  fsub := Rminus;
  fopp := Ropp;
  fdiv := Rdiv;
  finv := Rinv;
  exact_field := Rfield;
  exact_eq_dec := Req_dec_T
}.

(** binary64: [+] and [/] round to nearest even and never raise, apart
    from [/] on a divisor that compares equal to zero (either sign). *)
#[export] Instance binary64_Number : Number float := {
  add := PrimFloat.add;
  div := PrimFloat.div;
  is_zero := fun b => PrimFloat.eqb b PrimFloat.zero
}.

(** ** Control flow *)

(** [range(n)] for a single integer argument: [0, 1, ..., n-1], empty
    when [n <= 0]. *)
Definition range (n : Z) : list Z :=
  map Z.of_nat (seq 0 (Z.to_nat n)).

(** [for i in items: st = body(i, st)]. *)
Fixpoint for_in {I S : Type} (items : list I) (body : I -> S -> S) (st : S) : S :=
  match items with
  | [] => st
  | i :: rest => for_in rest body (body i st)
  end.

(** ** The notebook's functions *)

Section Notebook.

Context {T : Type} `{Number T}.

(** The loop body, [prev, curr = curr, prev + curr]: a simultaneous
    assignment, the right-hand side is read before either variable is
    written. *)
Definition fib_body (_ : Z) (st : T * T) : T * T :=
  let '(prev, curr) := st in (curr, add prev curr).

(** The pair [(prev, curr)] when the loop of [fib] is left. *)
Definition fib_loop (n : Z) (f0 f1 : T) : T * T :=
  for_in (range n) fib_body (f0, f1).

(** The function under the decorator.  It has no [raise] and [+] has
    none either, so every path ends in [return prev]. *)
Definition fib (n : Z) (f0 f1 : T) : result T :=
  let '(prev, _) := fib_loop n f0 f1 in
  Ok prev.

(** Operands are evaluated left to right, then divided.  The calls go
    to the function itself here; [fib_lim_cached] below routes them
    through the decorator and [fib_lim_cached_sound] shows that nothing
    changes. *)
Definition fib_lim (n : Z) (f0 f1 : T) : result T :=
  a <- fib n f0 f1 ;;
  b <- fib (n - 1) f0 f1 ;;
  truediv a b.

End Notebook.

(** ** The memoising decorator *)

(** [lru_cache(maxsize=None)] keeps an unbounded table from argument
    tuples to returned values.  A call looks its arguments up; on a miss
    it runs the function and, when that returns, records the value (a
    raised exception is not recorded).  Keys are matched with [==]; on
    exact numbers that is equality, which [T_eq_dec] stands for.  (On
    binary64 [==] also identifies the two zeros; the section does not
    cover that.) *)
Section LruCache.

Context {T : Type} `{Number T}.
Variable T_eq_dec : forall a b : T, {a = b} + {a <> b}.

Definition key : Type := (Z * T * T)%type.
Definition cache : Type := list (key * T).

Definition key_eq_dec (k1 k2 : key) : {k1 = k2} + {k1 <> k2}.
Proof. repeat decide equality; apply Z.eq_dec. Defined.

Fixpoint cache_get (c : cache) (k : key) : option T :=
  match c with
  | [] => None
  | (k', v) :: c' => if key_eq_dec k k' then Some v else cache_get c' k
  end.

Definition fib_cached (c : cache) (n : Z) (f0 f1 : T) : result T * cache :=
  match cache_get c (n, f0, f1) with
  | Some v => (Ok v, c)
  | None =>
      match fib n f0 f1 with
      | Ok v => (Ok v, ((n, f0, f1), v) :: c)
      | Raise e => (Raise e, c)
      end
  end.

(** [fib_lim] as the notebook runs it, through the decorated [fib]. *)
Definition fib_lim_cached (c : cache) (n : Z) (f0 f1 : T) : result T * cache :=
  let '(ra, c1) := fib_cached c n f0 f1 in
  match ra with
  | Raise e => (Raise e, c1)
  | Ok a =>
      let '(rb, c2) := fib_cached c1 (n - 1) f0 f1 in
      match rb with
      | Raise e => (Raise e, c2)
      | Ok b => (truediv a b, c2)
      end
  end.

(** Every recorded value is what the undecorated function returns. *)
Definition cache_ok (c : cache) : Prop :=
  forall n f0 f1 v, cache_get c (n, f0, f1) = Some v -> fib n f0 f1 = Ok v.

End LruCache.

(** The number [fib] returns; [fib_returns] below shows it always does. *)
Definition fib_value {T : Type} `{Number T} (n : Z) (f0 f1 : T) : T :=
  fst (fib_loop n f0 f1).

(** ** Reading results *)

(** Decimal constants, read exactly. *)
Notation "'dec' q" := (Q2Qc q%Q) (at level 1, q at level 0, format "'dec'  q").

(** [r] is within [eps] of [c]. *)
Definition within (c eps r : Qc) : Prop :=
  (c - eps <= r)%Qc /\ (r <= c + eps)%Qc.

(** The rational a finite binary64 value stands for: sign, mantissa and
    exponent as [Prim2SF] decodes them. *)
Definition exact_of_float (x : float) : option Q :=
  match Prim2SF x with
  | S754_zero _ => Some 0%Q
  | S754_finite s m e =>
      Some (inject_Z (if s then Z.neg m else Z.pos m) * Qpower 2 e)%Q
  | S754_infinity _ | S754_nan => None
  end.

(** A binary64 result is within [eps] of [c]: it is finite and the
    rational it stands for is. *)
Definition within_float (c eps : Qc) (x : float) : Prop :=
  match exact_of_float x with
  | Some q => within c eps (Q2Qc q)
  | None => False
  end.

(** ** The notebook's third cell *)

(**
<<
    phi = (1 + sqrt(5))/2
    data = []
    for f0 in range(-5, 5):
        if f0 == 0:
            continue  # skip f0 == 0, for divide by 0 error
        data.append([f0, -f0/phi, fib_lim(30, f0, -f0/phi)])
>>
*)

Definition phi : float := ((1 + PrimFloat.sqrt 5) / 2)%float.

(** [float(z)], which Python applies to an [int] that meets a [float]
    in [+] or [/].  Exact for [|z| < 2^53], far more than the cell uses. *)
Definition float_of_int (z : Z) : float :=
  match z with
  | Z0 => PrimFloat.zero
  | Zpos _ => PrimFloat.of_uint63 (Uint63.of_Z z)
  | Zneg p => PrimFloat.opp (PrimFloat.of_uint63 (Uint63.of_Z (Zpos p)))
  end.

(** [-f0/phi]: the integer is negated, converted and divided. *)
Definition axis_seed (f0 : Z) : float :=
  PrimFloat.div (float_of_int (- f0)) phi.

(** [range(start, stop)]. *)
Definition range2 (start stop : Z) : list Z :=
  map (fun k => (start + Z.of_nat k)%Z) (seq 0 (Z.to_nat (stop - start))).

Definition row : Type := (Z * float * float)%type.

(** The loop of the cell; an exception raised by [fib_lim] ends it.  The
    integer [f0] reaches [fib] as it is and is converted by the first
    [prev + curr]; for the indices 30 and 29 that is the same as
    converting it beforehand. *)
Fixpoint cell3_loop (items : list Z) (data : list row) : result (list row) :=
  match items with
  | [] => Ok data
  | f0 :: rest =>
      if (f0 =? 0)%Z then cell3_loop rest data
      else
        lim <- fib_lim 30 (float_of_int f0) (axis_seed f0) ;;
        cell3_loop rest (data ++ [(f0, axis_seed f0, lim)])
  end.

Definition cell3 : result (list row) := cell3_loop (range2 (-5) 5) [].

(** A row of [data] prints as a row of the table: the same [f0], and
    [f1] and the limit equal to the printed decimals up to half a unit
    of their last digit. *)
Definition prints_as (r : row) (printed : Z * Q * Q) : Prop :=
  let '(f0, f1, lim) := r in
  let '(shown_f0, shown_f1, shown_lim) := printed in
  f0 = shown_f0 /\
  within_float (Q2Qc shown_f1) (dec 0.000005) f1 /\
  within_float (Q2Qc shown_lim) (dec 0.0000005) lim.

(** The table as the notebook shows it. *)
Definition cell3_output : list (Z * Q * Q) :=
  [ ((-5)%Z, 3.09017%Q, (-0.61808)%Q);
    ((-4)%Z, 2.47214%Q, (-0.618109)%Q);
    ((-3)%Z, 1.8541%Q, (-0.61806)%Q);
    ((-2)%Z, 1.23607%Q, (-0.618109)%Q);
    ((-1)%Z, 0.618034%Q, (-0.618109)%Q);
    (1%Z, (-0.618034)%Q, (-0.618109)%Q);
    (2%Z, (-1.23607)%Q, (-0.618109)%Q);
    (3%Z, (-1.8541)%Q, (-0.61806)%Q);
    (4%Z, (-2.47214)%Q, (-0.618109)%Q) ].

(** The binary64 value Python reads the literal [-2.47214] as. *)
Definition literal_2_47214 : float := (-0x1.3c6f156191149p+1)%float.

(** ** The notebook's second cell *)

(**
<<
    data = []
    for _ in range(10):  # sample random choices for f0, f1
        f0, f1 = uniform(-8, 8), uniform(-8, 8)
        data.append([f0, f1, fib_lim(100, f0, f1)])
>>
*)

Section Cell2.

Context {T : Type} `{Number T}.

(** The random source, from outside the notebook: [uniform k] is what
    the [k]-th call of [uniform(-8, 8)] returns. *)
Variable uniform : nat -> T.

(** The loop of the cell, with the number of draws made so far.  The
    tuple on the right of [f0, f1 = ...] is evaluated left to right, so
    [f0] takes the earlier draw.  An exception raised by [fib_lim] ends
    the loop and the cell. *)
Fixpoint cell2_loop (items : list Z) (drawn : nat) (data : list (T * T * T))
  : result (list (T * T * T)) :=
  match items with
  | [] => Ok data
  | _ :: rest =>
      let f0 := uniform drawn in
      let f1 := uniform (S drawn) in
      lim <- fib_lim 100 f0 f1 ;;
      cell2_loop rest (S (S drawn)) (data ++ [(f0, f1, lim)])
  end.

Definition cell2 : result (list (T * T * T)) := cell2_loop (range 10) 0 [].

(** Whether the divisor of [fib_lim 100] is zero for the draws [k] and
    [k + 1]. *)
Definition cell2_zero_at (k : nat) : bool :=
  is_zero (fib_value 99 (uniform k) (uniform (S k))).

(** The row the cell appends from the draws [k] and [k + 1], when
    [fib_lim] returns. *)
Definition cell2_row (k : nat) : T * T * T :=
  (uniform k, uniform (S k),
   div (fib_value 100 (uniform k) (uniform (S k)))
       (fib_value 99 (uniform k) (uniform (S k)))).

End Cell2.

(** ** Quantities of the notebook's argument *)


(** The roots of [L^2 = L + 1], as real numbers. *)
Definition golden : R := ((1 + sqrt 5) / 2)%R.
Definition golden_conj : R := ((1 - sqrt 5) / 2)%R.

(** * Facts that hold for every kind of number *)

Section LoopFacts.

Context {T : Type} `{Number T}.

Lemma for_in_app {I S : Type} (l1 l2 : list I) (body : I -> S -> S) (st : S) :
  for_in (l1 ++ l2) body st = for_in l2 body (for_in l1 body st).
Proof.
  revert st; induction l1 as [|i l1 IH]; intros st; simpl.
  - reflexivity.
  - apply IH.
Qed.

Lemma range_nonpos (n : Z) : (n <= 0)%Z -> range n = [].
Proof.
  intros Hn. unfold range.
  replace (Z.to_nat n) with 0%nat by lia. reflexivity.
Qed.

Lemma range_succ (n : Z) : (0 <= n)%Z -> range (n + 1) = range n ++ [n].
Proof.
  intros Hn. unfold range.
  replace (Z.to_nat (n + 1)) with (S (Z.to_nat n)) by lia.
  rewrite seq_S, map_app. simpl.
  now rewrite Z2Nat.id.
Qed.

(** The body runs [n] times when [n] is positive and not at all
    otherwise. *)
Lemma range_length (n : Z) : length (range n) = Z.to_nat n.
Proof. unfold range. now rewrite length_map, length_seq. Qed.

Lemma fib_loop_nonpos (n : Z) (f0 f1 : T) :
  (n <= 0)%Z -> fib_loop n f0 f1 = (f0, f1).
Proof. intros Hn. unfold fib_loop. now rewrite range_nonpos. Qed.

(** One more trip round the loop. *)
Lemma fib_loop_succ (n : Z) (f0 f1 : T) :
  (0 <= n)%Z -> fib_loop (n + 1) f0 f1 = fib_body n (fib_loop n f0 f1).
Proof.
  intros Hn. unfold fib_loop.
  now rewrite range_succ, for_in_app.
Qed.

(** [fib] has no failing path. *)
Lemma fib_returns (n : Z) (f0 f1 : T) : fib n f0 f1 = Ok (fib_value n f0 f1).
Proof. unfold fib, fib_value. now destruct (fib_loop n f0 f1). Qed.

Lemma fib_never_raises (n : Z) (f0 f1 : T) (e : exn) : fib n f0 f1 <> Raise e.
Proof. rewrite fib_returns. discriminate. Qed.

Lemma fib_value_nonpos (n : Z) (f0 f1 : T) :
  (n <= 0)%Z -> fib_value n f0 f1 = f0.
Proof. intros Hn. unfold fib_value. now rewrite fib_loop_nonpos. Qed.

(** [curr] runs one step ahead of [prev]. *)
Lemma fib_loop_curr (n : Z) (f0 f1 : T) :
  (0 <= n)%Z -> snd (fib_loop n f0 f1) = fib_value (n + 1) f0 f1.
Proof.
  intros Hn. unfold fib_value. rewrite fib_loop_succ by assumption.
  now destruct (fib_loop n f0 f1).
Qed.

(** The recurrence in the order the code adds: older term first. *)
Lemma fib_value_step (n : Z) (f0 f1 : T) :
  (0 <= n)%Z ->
  fib_value (n + 2) f0 f1 = add (fib_value n f0 f1) (fib_value (n + 1) f0 f1).
Proof.
  intros Hn.
  rewrite <- (fib_loop_curr (n:=n)) by assumption.
  unfold fib_value.
  replace (n + 2)%Z with (n + 1 + 1)%Z by lia.
  rewrite (fib_loop_succ (n:=n + 1)) by lia.
  rewrite (fib_loop_succ (n:=n)) by assumption.
  now destruct (fib_loop n f0 f1).
Qed.

(** With a commutative [+] the newer term may be written first. *)
Lemma fib_value_recurrence (n : Z) (f0 f1 : T) :
  (forall a b : T, add a b = add b a) ->
  (2 <= n)%Z ->
  fib_value n f0 f1 = add (fib_value (n - 1) f0 f1) (fib_value (n - 2) f0 f1).
Proof.
  intros Hcomm Hn.
  replace n with (n - 2 + 2)%Z at 1 by lia.
  rewrite fib_value_step by lia.
  replace (n - 2 + 1)%Z with (n - 1)%Z by lia.
  apply Hcomm.
Qed.

(** [fib_lim] is the guarded quotient of the two values. *)
Lemma fib_lim_unfold (n : Z) (f0 f1 : T) :
  fib_lim n f0 f1 = truediv (fib_value n f0 f1) (fib_value (n - 1) f0 f1).
Proof. unfold fib_lim. now rewrite !fib_returns. Qed.

End LoopFacts.

(** * The decorator does not change what is returned *)

Section LruCacheFacts.

Context {T : Type} `{Number T}.
Variable T_eq_dec : forall a b : T, {a = b} + {a <> b}.

Lemma cache_ok_nil : cache_ok (T:=T) T_eq_dec [].
Proof. intros n f0 f1 v Hget. discriminate Hget. Qed.

Lemma cache_get_cons (c : @cache T) (k k' : @key T) (v : T) :
  cache_get T_eq_dec ((k, v) :: c) k' =
  if key_eq_dec T_eq_dec k' k then Some v else cache_get T_eq_dec c k'.
Proof. reflexivity. Qed.

Lemma fib_cached_sound (c : cache) (n : Z) (f0 f1 : T) :
  cache_ok T_eq_dec c ->
  fst (fib_cached T_eq_dec c n f0 f1) = fib n f0 f1 /\
  cache_ok T_eq_dec (snd (fib_cached T_eq_dec c n f0 f1)).
Proof.
  intros Hc. unfold fib_cached.
  destruct (cache_get T_eq_dec c (n, f0, f1)) as [v|] eqn:Hget.
  - split; [symmetry; now apply Hc | exact Hc].
  - rewrite fib_returns. simpl. split; [reflexivity|].
    intros n' f0' f1' v' Hget'. rewrite cache_get_cons in Hget'.
    destruct (key_eq_dec T_eq_dec (n', f0', f1') (n, f0, f1)) as [Heq|Hne].
    + injection Heq as -> -> ->.
      injection Hget' as <-. apply fib_returns.
    + now apply Hc.
Qed.


End LruCacheFacts.

(** * Exact arithmetic *)

Section ExactFacts.

Context {F : Type} {E : ExactField F}.

Add Field exact_field_tactics : (@exact_field F E).

Lemma is_zero_exact (b : F) : is_zero b = true <-> b = 0%ex.
Proof.
  unfold is_zero; simpl.
  destruct (exact_eq_dec b 0%ex) as [Hb|Hb]; split; intros Hz;
    try reflexivity; try assumption; try discriminate; contradiction.
Qed.

Lemma truediv_exact_nonzero (a b : F) :
  b <> 0%ex -> truediv a b = Ok (a / b)%ex.
Proof.
  intros Hb. unfold truediv.
  destruct (is_zero b) eqn:Hz; [|reflexivity].
  apply is_zero_exact in Hz. contradiction.
Qed.

Lemma truediv_exact_raises (a b : F) :
  truediv a b = Raise ZeroDivisionError <-> b = 0%ex.
Proof.
  unfold truediv. split.
  - intros Hr. destruct (is_zero b) eqn:Hz; [now apply is_zero_exact | discriminate].
  - intros Hb. apply is_zero_exact in Hb. now rewrite Hb.
Qed.

(** [/] raises nothing but [ZeroDivisionError]. *)
Lemma truediv_not_invalid (a b : F) : truediv a b <> Raise InvalidArgument.
Proof. unfold truediv. destruct (is_zero b); discriminate. Qed.

Lemma fadd_comm (a b : F) : add a b = add b a.
Proof. cbn [add exact_Number]. ring. Qed.

Lemma fmul_nonzero (a b : F) : a <> 0%ex -> b <> 0%ex -> (a * b)%ex <> 0%ex.
Proof.
  intros Ha Hb Hab. apply Hb.
  transitivity ((a * b) / a)%ex; [now field | rewrite Hab; now field].
Qed.

Lemma fdiv_self (a : F) : a <> 0%ex -> (a / a)%ex = 1%ex.
Proof. intros Ha. now field. Qed.

(** The loop is linear in the pair of seeds. *)
Lemma for_in_linear (l : list Z) (alpha beta a0 a1 b0 b1 : F) :
  for_in l fib_body ((alpha * a0 + beta * b0)%ex, (alpha * a1 + beta * b1)%ex) =
  ((alpha * fst (for_in l fib_body (a0, a1)) +
    beta * fst (for_in l fib_body (b0, b1)))%ex,
   (alpha * snd (for_in l fib_body (a0, a1)) +
    beta * snd (for_in l fib_body (b0, b1)))%ex).
Proof.
  revert a0 a1 b0 b1.
  induction l as [|i l IH]; intros a0 a1 b0 b1.
  - reflexivity.
  - cbn [for_in fib_body add exact_Number].
    replace ((alpha * a0 + beta * b0) + (alpha * a1 + beta * b1))%ex
      with (alpha * (a0 + a1) + beta * (b0 + b1))%ex by ring.
    apply IH.
Qed.

Lemma fib_value_linear (n : Z) (alpha beta a0 a1 b0 b1 : F) :
  fib_value n (alpha * a0 + beta * b0)%ex (alpha * a1 + beta * b1)%ex =
  (alpha * fib_value n a0 a1 + beta * fib_value n b0 b1)%ex.
Proof. unfold fib_value, fib_loop. now rewrite for_in_linear. Qed.

Lemma fib_value_scale (n : Z) (c f0 f1 : F) :
  fib_value n (c * f0)%ex (c * f1)%ex = (c * fib_value n f0 f1)%ex.
Proof.
  transitivity (fib_value n (c * f0 + 0 * 0)%ex (c * f1 + 0 * 0)%ex).
  - f_equal; ring.
  - rewrite fib_value_linear. ring.
Qed.

(** Scaling the seeds by [c <> 0] leaves the guarded quotient alone,
    whether it returns or raises. *)
Lemma fib_lim_scale (n : Z) (c f0 f1 : F) :
  c <> 0%ex -> fib_lim n (c * f0)%ex (c * f1)%ex = fib_lim n f0 f1.
Proof.
  intros Hc. rewrite !fib_lim_unfold, !fib_value_scale.
  destruct (exact_eq_dec (fib_value (n - 1) f0 f1) 0%ex) as [Hz|Hnz].
  - rewrite Hz.
    transitivity (@Raise F ZeroDivisionError);
      [|symmetry]; apply truediv_exact_raises; [ring | reflexivity].
  - rewrite (truediv_exact_nonzero _ Hnz).
    rewrite (truediv_exact_nonzero _ (fmul_nonzero Hc Hnz)).
    f_equal. field. now split.
Qed.

End ExactFacts.

(** The laws at real seeds, rational or not. *)
Example real_seeds (x y : R) :
  fib 3 x y = Ok (y + (x + y))%R /\
  fib_lim 1 0%R y = Raise ZeroDivisionError /\
  (x <> 0%R -> fib_lim 1 x y = Ok (y / x)%R).
Proof.
  split; [reflexivity|]. split.
  - now apply (truediv_exact_raises (F:=R)).
  - intros Hx. rewrite fib_lim_unfold.
    change (truediv y x = Ok (y / x)%ex).
    now apply truediv_exact_nonzero.
Qed.

(** A concrete canonical fraction is not zero. *)
Ltac qc_nonzero :=
  let E := fresh "E" in
  intros E; apply (f_equal this) in E; vm_compute in E; discriminate E.

(** A concrete comparison of canonical fractions. *)
Ltac qc_order := vm_compute; discriminate.

(** * Binary64 arithmetic *)

Lemma SF64add_comm (x y : spec_float) : SF64add x y = SF64add y x.
Proof.
  unfold SF64add, SFadd.
  destruct x as [sx|sx| |sx mx ex], y as [sy|sy| |sy my ey];
    try reflexivity; try (destruct sx, sy; reflexivity).
  cbv zeta. rewrite (Z.min_comm ey ex). f_equal. apply Z.add_comm.
Qed.

Lemma float_add_comm (x y : float) : add x y = add y x.
Proof.
  apply Prim2SF_inj. cbn [add binary64_Number].
  rewrite !add_spec. apply SF64add_comm.
Qed.

(** X15. The recurrence holds to the last bit in binary64: for
    [n >= 2] the term [n] is the one rounded sum of the terms [n - 1]
    and [n - 2], in either order. *)
Lemma binary64_recurrence (n : Z) (f0 f1 : float) :
  (2 <= n)%Z ->
  fib n f0 f1 = Ok (fib_value (n - 1) f0 f1 + fib_value (n - 2) f0 f1)%float.
Proof.
  intros Hn. rewrite fib_returns. f_equal.
  change (fib_value n f0 f1 =
          add (fib_value (n - 1) f0 f1) (fib_value (n - 2) f0 f1)).
  apply fib_value_recurrence; [exact float_add_comm | exact Hn].
Qed.

Example exact_of_float_values :
  exact_of_float (-2.5)%float = Some (-5629499534213120 * Qpower 2 (-51))%Q /\
  (-5629499534213120 * Qpower 2 (-51) == -2.5)%Q /\
  exact_of_float PrimFloat.infinity = None.
Proof. repeat split. Qed.

Example float_of_int_values :
  float_of_int 4 = 4%float /\
  float_of_int (-5) = (-5)%float /\
  float_of_int 0 = 0%float.
Proof. repeat split. Qed.

(** [literal_2_47214] is the binary64 value nearest to -2.47214: it is
    closer than half a unit in the last place of [[2, 4)], 2^-52. *)
Lemma literal_2_47214_nearest :
  exists q : Q,
    exact_of_float literal_2_47214 = Some q /\
    (Qabs (q - (-2.47214)) < Qpower 2 (-52))%Q.
Proof. eexists. split; [vm_compute; reflexivity | vm_compute; reflexivity]. Qed.

(** * The recurrence evaluator *)

(** C1. Base cases: for all seeds [f0] and [f1], of whatever kind of
    number, [fib 0 f0 f1] returns exactly [f0] and [fib 1 f0 f1] returns
    exactly [f1]. *)
Theorem fib_base_cases (T : Type) (N : Number T) (f0 f1 : T) :
  fib 0 f0 f1 = Ok f0 /\ fib 1 f0 f1 = Ok f1.
Proof. split; reflexivity. Qed.

(** C2. Recurrence law: for every [n >= 2] and all seeds of an exact
    field (rational, real), [fib n] returns the sum of what [fib (n - 1)]
    and [fib (n - 2)] return. *)
Theorem fib_recurrence (F : Type) (E : ExactField F) (n : Z) (f0 f1 : F) :
  (2 <= n)%Z ->
  fib n f0 f1 = Ok (fib_value (n - 1) f0 f1 + fib_value (n - 2) f0 f1)%ex.
Proof.
  intros Hn. rewrite fib_returns. f_equal.
  change (fib_value n f0 f1 =
          add (fib_value (n - 1) f0 f1) (fib_value (n - 2) f0 f1)).
  apply fib_value_recurrence; [exact fadd_comm | exact Hn].
Qed.

Lemma fib_recurrence_witness :
  (2 <= 4)%Z /\
  fib 4 (dec 4) (dec (-2.5)) =
  Ok (fib_value (4 - 1) (dec 4) (dec (-2.5)) +
      fib_value (4 - 2) (dec 4) (dec (-2.5)))%Qc.
Proof.
  split; [lia | apply (@fib_recurrence Qc Qc_ExactField 4 (dec 4) (dec (-2.5))); lia].
Defined.

(** C8. Linearity: for every [n >= 0], seed pairs [(a0, a1)], [(b0, b1)]
    and scalars [alpha], [beta] of an exact field, the term from the
    combined seeds is the same combination of the two terms, exactly. *)
Theorem fib_linear (F : Type) (E : ExactField F) (n : Z)
    (alpha beta a0 a1 b0 b1 : F) :
  (0 <= n)%Z ->
  fib n (alpha * a0 + beta * b0)%ex (alpha * a1 + beta * b1)%ex =
  Ok (alpha * fib_value n a0 a1 + beta * fib_value n b0 b1)%ex.
Proof. intros _. rewrite fib_returns. f_equal. apply fib_value_linear. Qed.

Lemma fib_linear_witness :
  (0 <= 5)%Z /\
  fib 5 (dec 2 * dec 1 + dec (-3) * dec 0)%Qc
        (dec 2 * dec 1 + dec (-3) * dec 0.5)%Qc =
  Ok (dec 2 * fib_value 5 (dec 1) (dec 1) +
      dec (-3) * fib_value 5 (dec 0) (dec 0.5))%Qc.
Proof.
  split; [lia|].
  apply (@fib_linear Qc Qc_ExactField 5
           (dec 2) (dec (-3)) (dec 1) (dec 1) (dec 0) (dec 0.5)); lia.
Defined.

(** C9. Non-positive index: for every [n <= 0] the loop body runs zero
    times ([range n] is empty), the two variables are left as
    initialised, and [fib n f0 f1] returns [f0]; it raises nothing and,
    holding for every [Number], does no arithmetic. *)
Theorem fib_nonpositive_index (T : Type) (N : Number T) (n : Z) (f0 f1 : T) :
  (n <= 0)%Z ->
  range n = [] /\ fib_loop n f0 f1 = (f0, f1) /\ fib n f0 f1 = Ok f0.
Proof.
  intros Hn. split; [now apply range_nonpos|].
  split; [now apply fib_loop_nonpos|].
  rewrite fib_returns. f_equal. now apply fib_value_nonpos.
Qed.

Lemma fib_nonpositive_index_witness :
  (-1 <= 0)%Z /\
  range (-1) = [] /\
  fib_loop (-1) (dec 0) (dec 1) = (dec 0, dec 1) /\
  fib (-1) (dec 0) (dec 1) = Ok (dec 0).
Proof.
  split; [lia|].
  apply (@fib_nonpositive_index Qc exact_Number (-1) (dec 0) (dec 1)); lia.
Defined.

(** * The convergence ratio *)

(** C3. Ratio contract: for every [n >= 1] and seeds of an exact field
    for which [fib (n - 1)] returns a number other than zero, [fib_lim n]
    returns the quotient of what [fib n] and [fib (n - 1)] return. *)
Theorem fib_lim_ratio (F : Type) (E : ExactField F) (n : Z) (f0 f1 : F) :
  (1 <= n)%Z ->
  fib_value (n - 1) f0 f1 <> 0%ex ->
  fib_lim n f0 f1 = Ok (fib_value n f0 f1 / fib_value (n - 1) f0 f1)%ex.
Proof.
  intros _ Hnz. rewrite fib_lim_unfold. now apply truediv_exact_nonzero.
Qed.

Lemma fib_lim_ratio_witness :
  (1 <= 3)%Z /\
  fib_value (3 - 1) (dec 2) (dec 5) <> dec 0 /\
  fib_lim 3 (dec 2) (dec 5) =
  Ok (fib_value 3 (dec 2) (dec 5) / fib_value (3 - 1) (dec 2) (dec 5))%Qc.
Proof.
  assert (Hnz : fib_value (3 - 1) (dec 2) (dec 5) <> dec 0) by qc_nonzero.
  split; [lia | split; [exact Hnz |]].
  apply (@fib_lim_ratio Qc Qc_ExactField 3 (dec 2) (dec 5)); [lia | exact Hnz].
Defined.

(** C4. Division by zero: in an exact field [fib_lim n f0 f1] raises
    [ZeroDivisionError] exactly when [fib (n - 1) f0 f1] returns zero;
    [fib_lim 1 0 5] does, as [fib 0 0 5] returns 0 (with rational and
    with binary64 seeds). *)
Theorem fib_lim_zero_division :
  (forall (F : Type) (E : ExactField F) (n : Z) (f0 f1 : F),
      fib_lim n f0 f1 = Raise ZeroDivisionError <->
      fib_value (n - 1) f0 f1 = 0%ex) /\
  fib 0 (dec 0) (dec 5) = Ok (dec 0) /\
  fib_lim 1 (dec 0) (dec 5) = Raise ZeroDivisionError /\
  fib_lim 1 0%float 5%float = Raise ZeroDivisionError.
Proof.
  split; [|repeat split; reflexivity].
  intros F E n f0 f1. rewrite fib_lim_unfold. apply truediv_exact_raises.
Qed.

Lemma fib_lim_zero_division_witness :
  fib_value (1 - 1) (dec 0) (dec 5) = dec 0 /\
  fib_lim 1 (dec 0) (dec 5) = Raise ZeroDivisionError.
Proof.
  split; [reflexivity|].
  apply (proj1 fib_lim_zero_division Qc Qc_ExactField 1%Z (dec 0) (dec 5)).
  reflexivity.
Defined.

(** C10. Scale invariance: for every [n >= 1], scalar [c <> 0] and seeds
    of an exact field for which [fib (n - 1)] returns a number other than
    zero, [fib_lim n] returns a number, and the same number from the
    seeds scaled by [c]. *)
Theorem fib_lim_scale_invariant (F : Type) (E : ExactField F) (n : Z)
    (c f0 f1 : F) :
  (1 <= n)%Z ->
  c <> 0%ex ->
  fib_value (n - 1) f0 f1 <> 0%ex ->
  fib_lim n (c * f0)%ex (c * f1)%ex = fib_lim n f0 f1 /\
  exists r : F, fib_lim n f0 f1 = Ok r.
Proof.
  intros _ Hc Hnz. split; [now apply fib_lim_scale|].
  rewrite fib_lim_unfold, (truediv_exact_nonzero _ Hnz). eexists; reflexivity.
Qed.

Lemma fib_lim_scale_invariant_witness :
  (1 <= 3)%Z /\
  dec (-7) <> dec 0 /\
  fib_value (3 - 1) (dec 2) (dec 5) <> dec 0 /\
  fib_lim 3 (dec (-7) * dec 2)%Qc (dec (-7) * dec 5)%Qc = fib_lim 3 (dec 2) (dec 5) /\
  exists r : Qc, fib_lim 3 (dec 2) (dec 5) = Ok r.
Proof.
  assert (Hc : dec (-7) <> dec 0) by qc_nonzero.
  assert (Hnz : fib_value (3 - 1) (dec 2) (dec 5) <> dec 0) by qc_nonzero.
  split; [lia | split; [exact Hc | split; [exact Hnz |]]].
  apply (@fib_lim_scale_invariant Qc Qc_ExactField 3 (dec (-7)) (dec 2) (dec 5));
    [lia | exact Hc | exact Hnz].
Defined.

(** * Indices below the documented range *)

(** The notebook has no check on [n].  [fib (-1) 0 1] returns 0 and
    [fib_lim 0 1 1] returns 1: neither call raises [InvalidArgument]. *)
Lemma fib_negative_index_not_rejected :
  fib (-1) (dec 0) (dec 1) = Ok (dec 0) /\
  fib (-1) (dec 0) (dec 1) <> Raise InvalidArgument /\
  fib_lim 0 (dec 1) (dec 1) = Ok (dec 1) /\
  fib_lim 0 (dec 1) (dec 1) <> Raise InvalidArgument.
Proof. repeat split; try reflexivity; discriminate. Qed.

(** C5, as the code has it.  No index makes [fib] or [fib_lim] raise
    [InvalidArgument].  For [n < 0], [fib n f0 f1] returns [f0].  For
    [n < 1], [fib_lim n f0 f1] divides [f0] by itself: it returns 1 when
    [f0] is not zero and raises [ZeroDivisionError] when it is. *)
Theorem fib_index_not_validated (F : Type) (E : ExactField F) (n : Z)
    (f0 f1 : F) :
  fib n f0 f1 <> Raise InvalidArgument /\
  fib_lim n f0 f1 <> Raise InvalidArgument /\
  ((n < 0)%Z -> fib n f0 f1 = Ok f0) /\
  ((n < 1)%Z -> f0 <> 0%ex -> fib_lim n f0 f1 = Ok 1%ex) /\
  ((n < 1)%Z -> f0 = 0%ex -> fib_lim n f0 f1 = Raise ZeroDivisionError).
Proof.
  split; [apply fib_never_raises|].
  split; [rewrite fib_lim_unfold; apply truediv_not_invalid|].
  split.
  { intros Hn. rewrite fib_returns. f_equal. apply fib_value_nonpos. lia. }
  split.
  - intros Hn Hnz. rewrite fib_lim_unfold.
    rewrite !fib_value_nonpos by lia.
    rewrite (truediv_exact_nonzero _ Hnz). f_equal. now apply fdiv_self.
  - intros Hn Hz. rewrite fib_lim_unfold.
    rewrite !fib_value_nonpos by lia.
    now apply truediv_exact_raises.
Qed.

Lemma fib_index_not_validated_witness :
  (-1 < 0)%Z /\ fib (-1) (dec 2) (dec 5) = Ok (dec 2) /\
  (-1 < 1)%Z /\ dec 2 <> dec 0 /\ fib_lim (-1) (dec 2) (dec 5) = Ok (dec 1).
Proof.
  assert (Hnz : dec 2 <> dec 0) by qc_nonzero.
  pose proof (@fib_index_not_validated Qc Qc_ExactField (-1) (dec 2) (dec 5))
    as (_ & _ & Hfib & Hlim & _).
  split; [lia | split; [apply Hfib; lia |]].
  split; [lia | split; [exact Hnz | apply Hlim; [lia | exact Hnz]]].
Defined.

(** * Ratios at step 30 *)

(** In binary64 the quotient raises exactly when [fib (n - 1)] returns a
    zero of either sign. *)
Lemma binary64_zero_division (n : Z) (f0 f1 : float) :
  fib_lim n f0 f1 = Raise ZeroDivisionError <->
  PrimFloat.eqb (fib_value (n - 1) f0 f1) PrimFloat.zero = true.
Proof.
  rewrite fib_lim_unfold. unfold truediv. cbn [is_zero binary64_Number].
  destruct (PrimFloat.eqb (fib_value (n - 1) f0 f1) PrimFloat.zero);
    split; intros Hr; try reflexivity; discriminate Hr.
Qed.

(** The two terms and their quotient for the seeds [(1, 1)].  The terms
    are integers, the same in binary64; the binary64 quotient is the
    exact one rounded once, and is also what Python's [int / int] gives
    on integer seeds. *)
Example classic_seed_values :
  fib 30 (dec 1) (dec 1) = Ok (dec 1346269) /\
  fib 29 (dec 1) (dec 1) = Ok (dec 832040) /\
  fib_lim 30 (dec 1) (dec 1) = Ok (Q2Qc (1346269 # 832040)) /\
  fib 30 1%float 1%float = Ok 1346269%float /\
  fib 29 1%float 1%float = Ok 832040%float /\
  fib_lim 30 1%float 1%float = Ok 0x1.9e3779b980005p+0%float.
Proof.
  repeat split; try (vm_compute; reflexivity);
    rewrite ?fib_lim_unfold, ?fib_returns; vm_compute;
    f_equal; apply Qc_is_canon; reflexivity.
Qed.

(** The same for the seeds [4] and [-2.47214]: both terms are negative
    and their quotient is 1.61803... *)
Example literal_seed_values :
  fib 30 (dec 4) (dec (-2.47214)) = Ok (dec (-3.3656)) /\
  fib 29 (dec 4) (dec (-2.47214)) = Ok (dec (-2.08006)) /\
  fib_lim 30 (dec 4) (dec (-2.47214)) = Ok (Q2Qc (168280 # 104003)) /\
  fib_lim 30 4%float literal_2_47214 = Ok 0x1.9e373afbf0e8p+0%float.
Proof.
  repeat split; try (vm_compute; reflexivity);
    rewrite ?fib_lim_unfold, ?fib_returns; vm_compute;
    f_equal; apply Qc_is_canon; reflexivity.
Qed.

(** X14. The third cell, run in binary64, ends without an exception
    and its rows are the rows the notebook shows, digit for digit.  Every
    limit in it is negative. *)
Lemma cell3_reproduces_output :
  exists data : list row, cell3 = Ok data /\ Forall2 prints_as data cell3_output.
Proof.
  eexists. split; [vm_compute; reflexivity|].
  repeat constructor; qc_order.
Qed.

(** What the guard of the cell is for: at [f0 = 0] both terms are zero
    and the quotient raises. *)
Lemma cell3_guard_needed :
  fib_lim 30 (float_of_int 0) (axis_seed 0) = Raise ZeroDivisionError.
Proof. vm_compute. reflexivity. Qed.

(** From the seeds [4] and [-2.47214] the ratio at step 30 is not
    within 1e-3 of 0.618034, neither in exact nor in binary64
    arithmetic. *)
Lemma fib_lim_30_literal_not_near_inverse_phi :
  (exists r : Qc,
      fib_lim 30 (dec 4) (dec (-2.47214)) = Ok r /\
      ~ within (dec 0.618034) (dec 0.001) r) /\
  (exists x : float,
      fib_lim 30 4%float literal_2_47214 = Ok x /\
      ~ within_float (dec 0.618034) (dec 0.001) x).
Proof.
  split; eexists; (split; [vm_compute; reflexivity |]);
    intros [_ Hle]; vm_compute in Hle; apply Hle; reflexivity.
Qed.

(** C6, as the code has it.  From the seeds [4] and [-2.47214] the ratio
    at step 30 is within 1e-3 of 1.618034 and not of 0.618034: the
    six-digit literal is off the exceptional axis.  From the seed the
    notebook computes, [-4/phi] in binary64, the ratio at step 30 is
    within 1e-3 of -0.618034. *)
Theorem fib_lim_30_exceptional_axis :
  (exists r : Qc,
      fib_lim 30 (dec 4) (dec (-2.47214)) = Ok r /\
      within (dec 1.618034) (dec 0.001) r /\
      ~ within (dec 0.618034) (dec 0.001) r) /\
  (exists x : float,
      fib_lim 30 4%float literal_2_47214 = Ok x /\
      within_float (dec 1.618034) (dec 0.001) x /\
      ~ within_float (dec 0.618034) (dec 0.001) x) /\
  (exists x : float,
      fib_lim 30 4%float (axis_seed 4) = Ok x /\
      within_float (dec (-0.618034)) (dec 0.001) x).
Proof.
  split; [|split].
  - eexists. split; [vm_compute; reflexivity|].
    split; [split; qc_order|].
    intros [_ Hle]; vm_compute in Hle; apply Hle; reflexivity.
  - eexists. split; [vm_compute; reflexivity|].
    split; [split; qc_order|].
    intros [_ Hle]; vm_compute in Hle; apply Hle; reflexivity.
  - eexists. split; [vm_compute; reflexivity|]. split; qc_order.
Qed.

(** C7. Golden-ratio convergence: from the seeds [(1, 1)] the ratio at
    step 30 is within 1e-6 of 1.6180339887, with rational and with
    binary64 seeds. *)
Theorem fib_lim_30_classic :
  (exists r : Qc,
      fib_lim 30 (dec 1) (dec 1) = Ok r /\
      within (dec 1.6180339887) (dec 0.000001) r) /\
  (exists x : float,
      fib_lim 30 1%float 1%float = Ok x /\
      within_float (dec 1.6180339887) (dec 0.000001) x).
Proof.
  split; eexists; (split; [vm_compute; reflexivity | split; qc_order]).
Qed.

(** * More on the decorator *)

Section LruCacheMore.

Context {T : Type} `{Number T}.
Variable T_eq_dec : forall a b : T, {a = b} + {a <> b}.

Lemma cache_get_head (c : @cache T) (k : @key T) (v : T) :
  cache_get T_eq_dec ((k, v) :: c) k = Some v.
Proof.
  rewrite cache_get_cons.
  destruct (key_eq_dec T_eq_dec k k) as [_|Hne]; [reflexivity | now elim Hne].
Qed.

(** A call leaves every entry of the table where it was. *)
Lemma fib_cached_keeps (c : cache) (n : Z) (f0 f1 : T) (k : key) (v : T) :
  cache_get T_eq_dec c k = Some v ->
  cache_get T_eq_dec (snd (fib_cached T_eq_dec c n f0 f1)) k = Some v.
Proof.
  intros Hk. unfold fib_cached.
  destruct (cache_get T_eq_dec c (n, f0, f1)) as [w|] eqn:Hget; [exact Hk|].
  rewrite fib_returns. cbn [snd].
  rewrite (@cache_get_cons T T_eq_dec c (n, f0, f1) k (fib_value n f0 f1)).
  destruct (key_eq_dec T_eq_dec k (n, f0, f1)) as [Heq|_]; [|exact Hk].
  rewrite Heq, Hget in Hk. discriminate Hk.
Qed.

(** After a call the table holds its key, with the value [fib] returns
    when the table was sound. *)
Lemma fib_cached_records (c : cache) (n : Z) (f0 f1 : T) :
  cache_ok T_eq_dec c ->
  cache_get T_eq_dec (snd (fib_cached T_eq_dec c n f0 f1)) (n, f0, f1) =
  Some (fib_value n f0 f1).
Proof.
  intros Hc. unfold fib_cached.
  destruct (cache_get T_eq_dec c (n, f0, f1)) as [w|] eqn:Hget.
  - cbn [snd]. rewrite Hget. f_equal.
    apply Hc in Hget. rewrite fib_returns in Hget. now injection Hget.
  - rewrite fib_returns. cbn [snd]. apply cache_get_head.
Qed.

(** The table after [fib_lim_cached] is the table after its two calls of
    [fib], whatever the division does. *)
Lemma fib_lim_cached_table (c : cache) (n : Z) (f0 f1 : T) :
  snd (fib_lim_cached T_eq_dec c n f0 f1) =
  snd (fib_cached T_eq_dec (snd (fib_cached T_eq_dec c n f0 f1)) (n - 1) f0 f1).
Proof.
  unfold fib_lim_cached.
  destruct (fib_cached T_eq_dec c n f0 f1) as [ra c1] eqn:Hfirst. cbn [snd].
  destruct ra as [a|e].
  - destruct (fib_cached T_eq_dec c1 (n - 1) f0 f1) as [rb c2].
    now destruct rb.
  - exfalso. unfold fib_cached in Hfirst.
    destruct (cache_get T_eq_dec c (n, f0, f1)); [discriminate Hfirst|].
    rewrite fib_returns in Hfirst. discriminate Hfirst.
Qed.


(** X2. A repeated call is a hit: calling the decorated [fib] again with
    the same arguments returns the same result and leaves the table as
    the first call left it. *)
Theorem lru_cache_second_call_hits (c : cache) (n : Z) (f0 f1 : T) :
  fib_cached T_eq_dec (snd (fib_cached T_eq_dec c n f0 f1)) n f0 f1 =
  fib_cached T_eq_dec c n f0 f1.
Proof.
  unfold fib_cached at 2 3.
  destruct (cache_get T_eq_dec c (n, f0, f1)) as [w|] eqn:Hget.
  - cbn [snd]. unfold fib_cached. now rewrite Hget.
  - rewrite fib_returns. cbn [snd]. unfold fib_cached.
    now rewrite cache_get_head.
Qed.

(** X3. Nothing is evicted: an entry of the table is still there, with
    the same value, after a call of the decorated [fib] and after
    [fib_lim] run through it. *)
Theorem lru_cache_keeps_entries (c : cache) (n : Z) (f0 f1 : T)
    (k : key) (v : T) :
  cache_get T_eq_dec c k = Some v ->
  cache_get T_eq_dec (snd (fib_cached T_eq_dec c n f0 f1)) k = Some v /\
  cache_get T_eq_dec (snd (fib_lim_cached T_eq_dec c n f0 f1)) k = Some v.
Proof.
  intros Hk. split; [now apply fib_cached_keeps|].
  rewrite fib_lim_cached_table. now do 2 apply fib_cached_keeps.
Qed.

(** X4. [fib_lim] run through the decorator leaves both of its terms in
    the table, also when the division raises. *)
Theorem fib_lim_cached_fills_table (c : cache) (n : Z) (f0 f1 : T) :
  cache_ok T_eq_dec c ->
  cache_get T_eq_dec (snd (fib_lim_cached T_eq_dec c n f0 f1)) (n, f0, f1) =
  Some (fib_value n f0 f1) /\
  cache_get T_eq_dec (snd (fib_lim_cached T_eq_dec c n f0 f1)) ((n - 1)%Z, f0, f1) =
  Some (fib_value (n - 1) f0 f1).
Proof.
  intros Hc. rewrite fib_lim_cached_table. split.
  - apply fib_cached_keeps. now apply fib_cached_records.
  - apply fib_cached_records.
    now apply (fib_cached_sound n f0 f1 Hc).
Qed.

End LruCacheMore.


Lemma lru_cache_keeps_entries_witness :
  cache_get Qc_eq_dec [((3%Z, dec 1, dec 1), dec 3)] (3%Z, dec 1, dec 1) =
  Some (dec 3) /\
  cache_get Qc_eq_dec
    (snd (fib_cached Qc_eq_dec [((3%Z, dec 1, dec 1), dec 3)] 5 (dec 1) (dec 1)))
    (3%Z, dec 1, dec 1) = Some (dec 3) /\
  cache_get Qc_eq_dec
    (snd (fib_lim_cached Qc_eq_dec [((3%Z, dec 1, dec 1), dec 3)] 5 (dec 1) (dec 1)))
    (3%Z, dec 1, dec 1) = Some (dec 3).
Proof.
  assert (Hk : cache_get Qc_eq_dec [((3%Z, dec 1, dec 1), dec 3)]
                 (3%Z, dec 1, dec 1) = Some (dec 3))
    by (vm_compute; reflexivity).
  split; [exact Hk|].
  apply (@lru_cache_keeps_entries Qc exact_Number Qc_eq_dec
           [((3%Z, dec 1, dec 1), dec 3)] 5 (dec 1) (dec 1)
           (3%Z, dec 1, dec 1) (dec 3) Hk).
Defined.

(** The division of [fib_lim 1 0 5] raises; both terms are in the table
    all the same. *)
Lemma fib_lim_cached_fills_table_witness :
  cache_ok Qc_eq_dec [] /\
  fst (fib_lim_cached Qc_eq_dec [] 1 (dec 0) (dec 5)) = Raise ZeroDivisionError /\
  cache_get Qc_eq_dec (snd (fib_lim_cached Qc_eq_dec [] 1 (dec 0) (dec 5)))
    (1%Z, dec 0, dec 5) = Some (fib_value 1 (dec 0) (dec 5)) /\
  cache_get Qc_eq_dec (snd (fib_lim_cached Qc_eq_dec [] 1 (dec 0) (dec 5)))
    ((1 - 1)%Z, dec 0, dec 5) = Some (fib_value (1 - 1) (dec 0) (dec 5)).
Proof.
  split; [apply cache_ok_nil|].
  split; [vm_compute; reflexivity|].
  apply (@fib_lim_cached_fills_table Qc exact_Number Qc_eq_dec [] 1 (dec 0) (dec 5)).
  apply cache_ok_nil.
Defined.

(** * Resuming the sequence *)

Section Resume.

Context {T : Type} `{Number T}.

(** The loop never reads its index: two iterables of one length drive it
    alike. *)
Lemma for_in_fib_body_length (l1 l2 : list Z) (st : T * T) :
  length l1 = length l2 -> for_in l1 fib_body st = for_in l2 fib_body st.
Proof.
  revert l2 st. induction l1 as [|i l1 IH]; intros [|j l2] st Hlen;
    try discriminate Hlen.
  - reflexivity.
  - cbn [for_in]. apply IH. now injection Hlen.
Qed.

Lemma fib_loop_pair (n : Z) (f0 f1 : T) :
  (0 <= n)%Z ->
  fib_loop n f0 f1 = (fib_value n f0 f1, fib_value (n + 1) f0 f1).
Proof.
  intros Hn. rewrite <- fib_loop_curr by assumption.
  unfold fib_value. now destruct (fib_loop n f0 f1).
Qed.

Lemma fib_loop_add (m k : Z) (f0 f1 : T) :
  (0 <= m)%Z -> (0 <= k)%Z ->
  fib_loop (m + k) f0 f1 =
  fib_loop k (fib_value m f0 f1) (fib_value (m + 1) f0 f1).
Proof.
  intros Hm Hk. unfold fib_loop at 1.
  rewrite (@for_in_fib_body_length (range (m + k)) (range m ++ range k)).
  - rewrite for_in_app. fold (fib_loop m f0 f1).
    now rewrite fib_loop_pair by assumption.
  - rewrite length_app, !range_length. lia.
Qed.

(** X5. The sequence can be resumed from any two consecutive terms: for
    [m, k >= 0], [fib (m + k)] from the seeds returns what [fib k]
    returns from the terms [m] and [m + 1].  No law of arithmetic is
    used, so this holds to the last bit in binary64 too. *)
Theorem fib_resume (m k : Z) (f0 f1 : T) :
  (0 <= m)%Z -> (0 <= k)%Z ->
  fib (m + k) f0 f1 = fib k (fib_value m f0 f1) (fib_value (m + 1) f0 f1).
Proof.
  intros Hm Hk. rewrite !fib_returns. f_equal.
  unfold fib_value at 1 2. now rewrite fib_loop_add.
Qed.

End Resume.

Lemma fib_resume_witness :
  (0 <= 7)%Z /\ (0 <= 23)%Z /\
  fib (7 + 23) 4%float literal_2_47214 =
  fib 23 (fib_value 7 4%float literal_2_47214)
         (fib_value (7 + 1) 4%float literal_2_47214).
Proof.
  split; [lia | split; [lia|]].
  apply (@fib_resume float binary64_Number 7 23 4%float literal_2_47214); lia.
Defined.

(** * The notebook's argument, in exact arithmetic *)

Section ExactMore.

Context {F : Type} {E : ExactField F}.

Add Field exact_more_tactics : (@exact_field F E).

Local Notation "a - b" := (fsub a b) : exact_scope.
Local Notation "- a" := (fopp a) : exact_scope.

(** The sequence from [(1, 0)] is the one from [(0, 1)], one step late. *)
Lemma fib_value_unit_shift (n : Z) :
  (1 <= n)%Z -> fib_value n 1%ex 0%ex = fib_value (n - 1) 0%ex 1%ex.
Proof.
  intros Hn. unfold fib_value.
  replace n with (1 + (n - 1))%Z at 1 by lia.
  rewrite fib_loop_add by lia. do 2 f_equal.
  change (fib_value (1 + 1) 1%ex 0%ex) with (1 + 0)%ex. ring.
Qed.

(** X6. The notebook's decomposition over the classic sequence
    [F = fib . 0 1]: for [n >= 1], [fib n f0 f1] returns
    [f0 * F (n - 1) + f1 * F n].  At [n = 0] the right-hand side, with
    the notebook's [F (-1) = 0], is [0] and not [f0]. *)
Theorem fib_classic_decomposition (n : Z) (f0 f1 : F) :
  (1 <= n)%Z ->
  fib n f0 f1 =
  Ok (f0 * fib_value (n - 1) 0 1 + f1 * fib_value n 0 1)%ex /\
  (f0 * fib_value (0 - 1) 0 1 + f1 * fib_value 0 0 1)%ex = 0%ex.
Proof.
  intros Hn. split.
  - rewrite fib_returns. f_equal.
    rewrite <- fib_value_unit_shift by assumption.
    rewrite <- fib_value_linear. f_equal; ring.
  - rewrite !fib_value_nonpos by lia. ring.
Qed.

(** X7. The notebook's [L_n = 1 + 1/L_(n-1)]: for [n >= 1], when the
    terms [n - 1] and [n] are not zero, [fib_lim n] returns some [r],
    not zero, and [fib_lim (n + 1)] returns [1 + 1/r]. *)
Theorem fib_lim_step (n : Z) (f0 f1 : F) :
  (1 <= n)%Z ->
  fib_value (n - 1) f0 f1 <> 0%ex ->
  fib_value n f0 f1 <> 0%ex ->
  exists r : F,
    fib_lim n f0 f1 = Ok r /\ r <> 0%ex /\
    fib_lim (n + 1) f0 f1 = Ok (1 + 1 / r)%ex.
Proof.
  intros Hn Hprev Hcurr.
  exists (fib_value n f0 f1 / fib_value (n - 1) f0 f1)%ex.
  split; [rewrite fib_lim_unfold; now apply truediv_exact_nonzero|].
  split.
  - intros Hr. apply Hcurr.
    transitivity ((fib_value n f0 f1 / fib_value (n - 1) f0 f1) *
                  fib_value (n - 1) f0 f1)%ex; [now field|].
    rewrite Hr. ring.
  - rewrite fib_lim_unfold.
    replace (n + 1 - 1)%Z with n by lia.
    rewrite (truediv_exact_nonzero _ Hcurr). f_equal.
    replace (n + 1)%Z with (n - 1 + 2)%Z by lia.
    rewrite fib_value_step by lia.
    replace (n - 1 + 1)%Z with n by lia.
    cbn [add exact_Number]. field. now split.
Qed.



(** From seeds [(f0, q * f0)] with [q^2 = q + 1], [curr] is [q] times
    [prev] all along. *)
Lemma fib_loop_on_axis (q : F) (l : list Z) (x : F) :
  (q * q)%ex = (q + 1)%ex ->
  for_in l fib_body (x, (q * x)%ex) =
  (fst (for_in l fib_body (x, (q * x)%ex)),
   (q * fst (for_in l fib_body (x, (q * x)%ex)))%ex).
Proof.
  intros Hq. revert x. induction l as [|i l IH]; intros x.
  - reflexivity.
  - cbn [for_in fib_body add exact_Number].
    replace (x + q * x)%ex with (q * (q * x))%ex.
    + apply IH.
    + transitivity ((q * q) * x)%ex; [ring | rewrite Hq; ring].
Qed.

Lemma fone_nonzero : (1 : F)%ex <> 0%ex.
Proof. exact (F_1_neq_0 exact_field). Qed.

Lemma axis_root_nonzero (q : F) : (q * q)%ex = (q + 1)%ex -> q <> 0%ex.
Proof.
  intros Hq Hz. apply fone_nonzero.
  transitivity (q * q - q)%ex; [rewrite Hq; ring | rewrite Hz; ring].
Qed.

Lemma fib_value_on_axis (q f0 : F) (n : Z) :
  (q * q)%ex = (q + 1)%ex -> (0 <= n)%Z ->
  fib_value (n + 1) f0 (q * f0)%ex = (q * fib_value n f0 (q * f0)%ex)%ex.
Proof.
  intros Hq Hn. rewrite <- fib_loop_curr by assumption.
  unfold fib_value, fib_loop. now rewrite (@fib_loop_on_axis q (range n) f0 Hq).
Qed.

Lemma fib_value_on_axis_nonzero (q f0 : F) (n : Z) :
  (q * q)%ex = (q + 1)%ex -> f0 <> 0%ex -> (0 <= n)%Z ->
  fib_value n f0 (q * f0)%ex <> 0%ex.
Proof.
  intros Hq Hf0 Hn. revert n Hn. apply natlike_ind.
  - exact Hf0.
  - intros n Hn IH. unfold Z.succ. rewrite fib_value_on_axis by assumption.
    apply fmul_nonzero; [now apply axis_root_nonzero | exact IH].
Qed.

(** X9. On an axis the ratio does not move: when [q^2 = q + 1] and
    [f0] is not zero, every term from the seeds [(f0, q * f0)] is [q]
    times the term before, and [fib_lim n] returns exactly [q] for every
    [n >= 1]. *)
Theorem fib_lim_on_axis (q f0 : F) (n : Z) :
  (q * q)%ex = (q + 1)%ex ->
  f0 <> 0%ex ->
  (1 <= n)%Z ->
  fib n f0 (q * f0)%ex = Ok (q * fib_value (n - 1) f0 (q * f0)%ex)%ex /\
  fib_lim n f0 (q * f0)%ex = Ok q.
Proof.
  intros Hq Hf0 Hn.
  assert (Hstep : fib_value n f0 (q * f0)%ex =
                  (q * fib_value (n - 1) f0 (q * f0)%ex)%ex).
  { replace n with (n - 1 + 1)%Z at 1 by lia.
    apply fib_value_on_axis; [exact Hq | lia]. }
  assert (Hnz : fib_value (n - 1) f0 (q * f0)%ex <> 0%ex)
    by (apply fib_value_on_axis_nonzero; [exact Hq | exact Hf0 | lia]).
  split; [rewrite fib_returns; now f_equal|].
  rewrite fib_lim_unfold, (truediv_exact_nonzero _ Hnz). f_equal.
  rewrite Hstep. now field.
Qed.

End ExactMore.

Lemma fib_classic_decomposition_witness :
  (1 <= 6)%Z /\
  fib 6 (dec 4) (dec (-2.5)) =
  Ok (dec 4 * fib_value (6 - 1) (dec 0) (dec 1) +
      dec (-2.5) * fib_value 6 (dec 0) (dec 1))%Qc /\
  (dec 4 * fib_value (0 - 1) (dec 0) (dec 1) +
   dec (-2.5) * fib_value 0 (dec 0) (dec 1))%Qc = dec 0.
Proof.
  split; [lia|].
  apply (@fib_classic_decomposition Qc Qc_ExactField 6 (dec 4) (dec (-2.5))); lia.
Defined.

Lemma fib_lim_step_witness :
  (1 <= 3)%Z /\
  fib_value (3 - 1) (dec 2) (dec 5) <> dec 0 /\
  fib_value 3 (dec 2) (dec 5) <> dec 0 /\
  exists r : Qc,
    fib_lim 3 (dec 2) (dec 5) = Ok r /\ r <> dec 0 /\
    fib_lim (3 + 1) (dec 2) (dec 5) = Ok (dec 1 + dec 1 / r)%Qc.
Proof.
  assert (Hprev : fib_value (3 - 1) (dec 2) (dec 5) <> dec 0) by qc_nonzero.
  assert (Hcurr : fib_value 3 (dec 2) (dec 5) <> dec 0) by qc_nonzero.
  split; [lia | split; [exact Hprev | split; [exact Hcurr|]]].
  apply (@fib_lim_step Qc Qc_ExactField 3 (dec 2) (dec 5)); [lia | exact Hprev | exact Hcurr].
Defined.

(** * Real seeds: the golden ratio *)

Section RealSeeds.

Local Open Scope R_scope.

Lemma sqrt5_square : sqrt 5 * sqrt 5 = 5.
Proof. apply sqrt_sqrt. lra. Qed.

Lemma sqrt5_bounds : 2 < sqrt 5 < 3.
Proof.
  pose proof sqrt5_square as Hs.
  pose proof (sqrt_pos 5) as Hp.
  split; nra.
Qed.

Lemma golden_root : golden * golden = golden + 1.
Proof. unfold golden. pose proof sqrt5_square. nra. Qed.

Lemma golden_conj_root : golden_conj * golden_conj = golden_conj + 1.
Proof. unfold golden_conj. pose proof sqrt5_square. nra. Qed.

Lemma golden_bounds : 1 < golden < 2.
Proof. unfold golden. pose proof sqrt5_bounds. lra. Qed.

(** The axis of the third cell, [f1 = -f0/phi], is the line
    [f1 = golden_conj * f0]. *)
Lemma golden_conj_axis (f0 : R) : golden_conj * f0 = - f0 / golden.
Proof.
  pose proof golden_bounds as Hg.
  assert (Hprod : golden_conj * golden = -1)
    by (unfold golden_conj, golden; pose proof sqrt5_square; nra).
  replace golden_conj with (golden_conj * golden / golden) by (field; lra).
  rewrite Hprod. field. lra.
Qed.


Lemma real_add (a b : R) : add a b = a + b.
Proof. reflexivity. Qed.

Lemma real_truediv (a b : R) : b <> 0 -> truediv a b = Ok (a / b).
Proof. exact (@truediv_exact_nonzero R R_ExactField a b). Qed.

(** Positive seeds keep both variables of the loop positive. *)
Lemma for_in_positive (l : list Z) (a b : R) :
  0 < a -> 0 < b ->
  0 < fst (for_in l fib_body (a, b)) /\ 0 < snd (for_in l fib_body (a, b)).
Proof.
  revert a b. induction l as [|i l IH]; intros a b Ha Hb.
  - now split.
  - cbn [for_in fib_body]. apply IH; [exact Hb | rewrite real_add; lra].
Qed.

Lemma fib_value_positive (n : Z) (f0 f1 : R) :
  0 < f0 -> 0 < f1 -> 0 < fib_value n f0 f1.
Proof. intros H0 H1. now apply for_in_positive. Qed.

Lemma fib_value_real_step (n : Z) (f0 f1 : R) :
  (1 <= n)%Z ->
  fib_value (n + 1) f0 f1 = fib_value (n - 1) f0 f1 + fib_value n f0 f1.
Proof.
  intros Hn. replace (n + 1)%Z with (n - 1 + 2)%Z by lia.
  rewrite fib_value_step by lia.
  now replace (n - 1 + 1)%Z with n by lia.
Qed.

(** The ratio of the terms [n] and [n - 1], as a number. *)
Lemma fib_lim_positive_value (n : Z) (f0 f1 : R) :
  0 < f0 -> 0 < f1 ->
  fib_lim n f0 f1 = Ok (fib_value n f0 f1 / fib_value (n - 1) f0 f1).
Proof.
  intros H0 H1. rewrite fib_lim_unfold.
  apply real_truediv.
  pose proof (fib_value_positive (n - 1) H0 H1). lra.
Qed.

Lemma ratio_bounds (n : Z) (f0 f1 : R) :
  0 < f0 -> 0 < f1 -> (3 <= n)%Z ->
  1 < fib_value n f0 f1 / fib_value (n - 1) f0 f1 < 2.
Proof.
  intros H0 H1 Hn.
  pose proof (fib_value_positive (n - 2) H0 H1) as Ha.
  pose proof (fib_value_positive (n - 3) H0 H1) as Hc.
  pose proof (@fib_value_real_step (n - 1) f0 f1 ltac:(lia)) as Hs.
  pose proof (@fib_value_real_step (n - 2) f0 f1 ltac:(lia)) as Hs'.
  replace (n - 1 + 1)%Z with n in Hs by lia.
  replace (n - 1 - 1)%Z with (n - 2)%Z in Hs by lia.
  replace (n - 2 + 1)%Z with (n - 1)%Z in Hs' by lia.
  replace (n - 2 - 1)%Z with (n - 3)%Z in Hs' by lia.
  set (x := fib_value n f0 f1) in *.
  set (y := fib_value (n - 1) f0 f1) in *.
  set (z := fib_value (n - 2) f0 f1) in *.
  set (w := fib_value (n - 3) f0 f1) in *.
  assert (Hy : 0 < y) by lra.
  split.
  - apply Rmult_lt_reg_r with y; [exact Hy|]. unfold Rdiv.
    rewrite Rmult_assoc, Rinv_l by lra. lra.
  - apply Rmult_lt_reg_r with y; [exact Hy|]. unfold Rdiv.
    rewrite Rmult_assoc, Rinv_l by lra. lra.
Qed.


Lemma ratio_step (n : Z) (f0 f1 : R) :
  0 < f0 -> 0 < f1 -> (1 <= n)%Z ->
  fib_value (n + 1) f0 f1 / fib_value n f0 f1 =
  1 + / (fib_value n f0 f1 / fib_value (n - 1) f0 f1).
Proof.
  intros H0 H1 Hn. rewrite fib_value_real_step by assumption.
  pose proof (fib_value_positive n H0 H1).
  pose proof (fib_value_positive (n - 1) H0 H1).
  field. split; lra.
Qed.

(** One step of [L -> 1 + 1/L] from above 1 brings [L] closer to the
    golden ratio by the factor [1/golden] at least. *)
Lemma golden_contraction (L : R) :
  1 < L -> Rabs (1 + / L - golden) <= Rabs (L - golden) * / golden.
Proof.
  intros HL. pose proof golden_bounds as Hg. pose proof golden_root as Hr.
  assert (Heq : 1 + / L - golden = (golden - L) * (/ L * / golden)).
  { field_simplify_eq; [nra | lra]. }
  assert (HiL : 0 < / L) by (apply Rinv_0_lt_compat; lra).
  assert (Hig : 0 < / golden) by (apply Rinv_0_lt_compat; lra).
  assert (HiL1 : / L <= 1).
  { rewrite <- Rinv_1. apply Rinv_le_contravar; lra. }
  rewrite Heq, Rabs_mult, (Rabs_minus_sym golden L).
  rewrite (Rabs_right (/ L * / golden)) by nra.
  apply Rmult_le_compat_l; [apply Rabs_pos | nra].
Qed.

Lemma ratio_converges (k : nat) (f0 f1 : R) :
  0 < f0 -> 0 < f1 ->
  Rabs (fib_value (3 + Z.of_nat k) f0 f1 / fib_value (3 + Z.of_nat k - 1) f0 f1
        - golden) <= (/ golden) ^ k.
Proof.
  intros H0 H1. pose proof golden_bounds as Hg.
  induction k as [|k IH].
  - pose proof (@ratio_bounds 3 f0 f1 H0 H1 ltac:(lia)) as Hb.
    cbn [Z.of_nat pow]. replace (3 + 0)%Z with 3%Z by lia.
    apply Rabs_le. lra.
  - replace (3 + Z.of_nat (S k))%Z with (3 + Z.of_nat k + 1)%Z by lia.
    replace (3 + Z.of_nat k + 1 - 1)%Z with (3 + Z.of_nat k)%Z by lia.
    rewrite ratio_step by (assumption || lia).
    pose proof (@ratio_bounds (3 + Z.of_nat k) f0 f1 H0 H1 ltac:(lia)) as Hb.
    eapply Rle_trans; [apply golden_contraction; lra|].
    cbn [pow]. rewrite (Rmult_comm (/ golden)).
    apply Rmult_le_compat_r; [|exact IH].
    left. apply Rinv_0_lt_compat. lra.
Qed.


(** Same-sign seeds give the ratios of their absolute values. *)
Lemma fib_lim_opp (n : Z) (f0 f1 : R) :
  fib_lim n (- f0) (- f1) = fib_lim n f0 f1.
Proof.
  replace (- f0) with (-1 * f0) by ring.
  replace (- f1) with (-1 * f1) by ring.
  apply (@fib_lim_scale R R_ExactField n (-1) f0 f1).
  cbn. lra.
Qed.

Lemma fib_lim_positive (n : Z) (f0 f1 : R) :
  0 < f0 -> 0 < f1 ->
  exists r : R,
    fib_lim n f0 f1 = Ok r /\ 0 < r /\
    ((3 <= n)%Z ->
     1 < r < 2 /\ Rabs (r - golden) <= (/ golden) ^ Z.to_nat (n - 3)).
Proof.
  intros H0 H1.
  exists (fib_value n f0 f1 / fib_value (n - 1) f0 f1).
  split; [now apply fib_lim_positive_value|].
  split.
  - apply Rdiv_lt_0_compat; now apply fib_value_positive.
  - intros Hn. split; [now apply ratio_bounds|].
    pose proof (@ratio_converges (Z.to_nat (n - 3)) f0 f1 H0 H1) as Hc.
    now replace (3 + Z.of_nat (Z.to_nat (n - 3)))%Z with n in Hc by lia.
Qed.

Lemma fib_lim_same_sign (n : Z) (f0 f1 : R) :
  0 < f0 * f1 ->
  exists r : R,
    fib_lim n f0 f1 = Ok r /\ 0 < r /\
    ((3 <= n)%Z ->
     1 < r < 2 /\ Rabs (r - golden) <= (/ golden) ^ Z.to_nat (n - 3)).
Proof.
  intros Hs. destruct (Rlt_le_dec 0 f0) as [H0|H0].
  - apply fib_lim_positive; [exact H0 | nra].
  - assert (Hneg0 : f0 < 0).
    { destruct H0 as [H0|H0]; [exact H0|].
      rewrite H0, Rmult_0_l in Hs. lra. }
    assert (Hneg1 : f1 < 0).
    { destruct (Rlt_le_dec f1 0) as [H1|H1]; [exact H1|].
      pose proof (Rmult_le_pos (- f0) f1 ltac:(lra) H1). lra. }
    rewrite <- fib_lim_opp. apply fib_lim_positive; lra.
Qed.

(** [fib_lim] seen from two consecutive terms. *)
Lemma fib_lim_resume (m n : Z) (f0 f1 : R) :
  (0 <= m)%Z -> (m + 1 <= n)%Z ->
  fib_lim n f0 f1 =
  fib_lim (n - m) (fib_value m f0 f1) (fib_value (m + 1) f0 f1).
Proof.
  intros Hm Hn. rewrite !fib_lim_unfold. unfold fib_value at 1 2 5 6.
  replace n with (m + (n - m))%Z at 1 by lia.
  replace (n - 1)%Z with (m + (n - m - 1))%Z at 1 by lia.
  now rewrite !fib_loop_add by lia.
Qed.


(** X11. Convergence to the golden ratio, with its rate: once two
    consecutive terms [m] and [m + 1] of a real sequence have one sign,
    [fib_lim n] returns for every [n >= m + 3] a ratio within
    [(1/golden)^(n - m - 3)] of [golden = (1 + sqrt 5)/2]. *)
Theorem fib_lim_converges_to_golden (m n : Z) (f0 f1 : R) :
  (0 <= m)%Z ->
  0 < fib_value m f0 f1 * fib_value (m + 1) f0 f1 ->
  (m + 3 <= n)%Z ->
  exists r : R,
    fib_lim n f0 f1 = Ok r /\
    Rabs (r - golden) <= (/ golden) ^ Z.to_nat (n - m - 3).
Proof.
  intros Hm Hs Hn. rewrite (@fib_lim_resume m n f0 f1) by lia.
  destruct (fib_lim_same_sign (n - m) Hs) as (r & Hr & _ & Hb).
  exists r. split; [exact Hr|].
  destruct (Hb ltac:(lia)) as [_ Hrate]. exact Hrate.
Qed.

End RealSeeds.

(** The seeds of the third cell's last row, in exact arithmetic: on the
    axis [f1 = -f0/phi] the ratio at step 30 is [(1 - sqrt 5)/2], about
    -0.618034, of which the printed -0.618109 is the binary64 shadow. *)
Lemma fib_lim_on_axis_witness :
  (golden_conj * golden_conj = golden_conj + 1)%R /\
  4%R <> 0%R /\
  (1 <= 30)%Z /\
  fib 30 4%R (golden_conj * 4)%R =
  Ok (golden_conj * fib_value (30 - 1) 4%R (golden_conj * 4)%R)%R /\
  fib_lim 30 4%R (golden_conj * 4)%R = Ok golden_conj.
Proof.
  assert (H4 : 4%R <> 0%R) by lra.
  assert (H30 : (1 <= 30)%Z) by lia.
  split; [exact golden_conj_root | split; [exact H4 | split; [exact H30|]]].
  exact (@fib_lim_on_axis R R_ExactField golden_conj 4%R 30
           golden_conj_root H4 H30).
Defined.


(** Seeds of opposite signs: the terms are 1, -3, -2, -5, ... and share
    a sign from the second on. *)
Lemma fib_lim_converges_to_golden_witness :
  (0 <= 1)%Z /\
  (0 < fib_value 1 1%R (-3)%R * fib_value (1 + 1) 1%R (-3)%R)%R /\
  (1 + 3 <= 30)%Z /\
  exists r : R,
    fib_lim 30 1%R (-3)%R = Ok r /\
    (Rabs (r - golden) <= (/ golden) ^ Z.to_nat (30 - 1 - 3))%R.
Proof.
  assert (Hm : (0 <= 1)%Z) by lia.
  assert (Hn : (1 + 3 <= 30)%Z) by lia.
  assert (Hs : (0 < fib_value 1 1%R (-3)%R * fib_value (1 + 1) 1%R (-3)%R)%R).
  { change (0 < -3 * (1 + -3))%R. lra. }
  split; [exact Hm | split; [exact Hs | split; [exact Hn|]]].
  exact (@fib_lim_converges_to_golden 1 30 1%R (-3)%R Hm Hs Hn).
Defined.

(** * The sweeps of the second and third cell *)

Section Cell2Facts.

Context {T : Type} `{Number T}.
Variable uniform : nat -> T.

Lemma cell2_fib_lim (k : nat) :
  fib_lim 100 (uniform k) (uniform (S k)) =
  if cell2_zero_at uniform k then Raise ZeroDivisionError
  else Ok (snd (cell2_row uniform k)).
Proof. rewrite fib_lim_unfold. reflexivity. Qed.

Lemma cell2_loop_returns (items : list Z) (drawn : nat) (data : list (T * T * T)) :
  (forall i, (i < length items)%nat -> cell2_zero_at uniform (drawn + 2 * i) = false) ->
  cell2_loop uniform items drawn data =
  Ok (data ++ map (fun i => cell2_row uniform (drawn + 2 * i))
                  (seq 0 (length items))).
Proof.
  revert drawn data. induction items as [|x items IH]; intros drawn data Hnz.
  - cbn. now rewrite app_nil_r.
  - cbn [cell2_loop]. rewrite cell2_fib_lim.
    pose proof (Hnz 0%nat ltac:(cbn; lia)) as H0.
    replace (drawn + 2 * 0)%nat with drawn in H0 by lia.
    rewrite H0. cbn [bind].
    rewrite IH.
    + rewrite <- app_assoc. f_equal. cbn [length seq map app].
      replace (drawn + 2 * 0)%nat with drawn by lia.
      rewrite <- seq_shift, map_map.
      rewrite (map_ext (fun i => cell2_row uniform (S (S drawn) + 2 * i))
                       (fun i => cell2_row uniform (drawn + 2 * S i)))
        by (intros i; f_equal; lia).
      reflexivity.
    + intros i Hi.
      replace (S (S drawn) + 2 * i)%nat with (drawn + 2 * S i)%nat by lia.
      apply Hnz. cbn. lia.
Qed.

Lemma cell2_loop_raises (items : list Z) (drawn : nat) (data : list (T * T * T)) :
  (exists i, (i < length items)%nat /\ cell2_zero_at uniform (drawn + 2 * i) = true) ->
  cell2_loop uniform items drawn data = Raise ZeroDivisionError.
Proof.
  revert drawn data. induction items as [|x items IH];
    intros drawn data (i & Hi & Hz).
  - cbn in Hi. lia.
  - cbn [cell2_loop]. rewrite cell2_fib_lim.
    destruct (cell2_zero_at uniform drawn) eqn:H0; [reflexivity|].
    cbn [bind]. apply IH.
    destruct i as [|i].
    + replace (drawn + 2 * 0)%nat with drawn in Hz by lia.
      rewrite H0 in Hz. discriminate Hz.
    + exists i. split; [cbn in Hi; lia|].
      now replace (S (S drawn) + 2 * i)%nat with (drawn + 2 * S i)%nat by lia.
Qed.

(** X12. The second cell is all or nothing.  It pairs the draws in the
    order they are made, [f0] first.  When the term 99 of none of the
    ten pairs is zero it returns ten rows, each a pair with the quotient
    of its terms 100 and 99; when it is zero for one of them, the cell
    raises [ZeroDivisionError] and no row is left. *)
Theorem cell2_all_or_nothing :
  ((forall i, (i < 10)%nat -> cell2_zero_at uniform (2 * i) = false) ->
   cell2 uniform = Ok (map (fun i => cell2_row uniform (2 * i)) (seq 0 10))) /\
  ((exists i, (i < 10)%nat /\ cell2_zero_at uniform (2 * i) = true) ->
   cell2 uniform = Raise ZeroDivisionError).
Proof.
  split.
  - intros Hnz. unfold cell2.
    rewrite cell2_loop_returns; [reflexivity|].
    intros i Hi. apply Hnz. exact Hi.
  - intros (i & Hi & Hz). unfold cell2.
    apply cell2_loop_raises. exists i. split; [exact Hi | exact Hz].
Qed.

End Cell2Facts.

Lemma cell2_all_or_nothing_witness :
  (forall i, (i < 10)%nat ->
     cell2_zero_at (fun _ : nat => dec 3) (2 * i) = false) /\
  cell2 (fun _ : nat => dec 3) =
  Ok (map (fun i => cell2_row (fun _ : nat => dec 3) (2 * i)) (seq 0 10)) /\
  (exists i, (i < 10)%nat /\
     cell2_zero_at (fun k : nat => if Nat.eqb (Nat.div2 k) 3 then dec 0 else dec 3) (2 * i) =
     true) /\
  cell2 (fun k : nat => if Nat.eqb (Nat.div2 k) 3 then dec 0 else dec 3) =
  Raise ZeroDivisionError.
Proof.
  assert (Hnz : forall i, (i < 10)%nat ->
     cell2_zero_at (fun _ : nat => dec 3) (2 * i) = false)
    by (intros i _; vm_compute; reflexivity).
  assert (Hz : exists i, (i < 10)%nat /\
     cell2_zero_at (fun k : nat => if Nat.eqb (Nat.div2 k) 3 then dec 0 else dec 3) (2 * i) =
     true).
  { exists 3%nat. split; [lia | vm_compute; reflexivity]. }
  split; [exact Hnz | split].
  - exact (proj1 (@cell2_all_or_nothing Qc exact_Number (fun _ : nat => dec 3)) Hnz).
  - split; [exact Hz|].
    exact (proj2 (@cell2_all_or_nothing Qc exact_Number
                    (fun k : nat => if Nat.eqb (Nat.div2 k) 3 then dec 0 else dec 3)) Hz).
Defined.



Lemma binary64_recurrence_witness :
  (2 <= 30)%Z /\
  fib 30 4%float literal_2_47214 =
  Ok (fib_value (30 - 1) 4%float literal_2_47214 +
      fib_value (30 - 2) 4%float literal_2_47214)%float.
Proof.
  split; [lia|].
  apply (@binary64_recurrence 30 4%float literal_2_47214). lia.
Defined.
